(** * kokkostbx: fixed-size numeric vectors (kokkos_vector.h, kokkos_vector3.h)

    A shallow embedding of [kokkostbx::vector_base<Derived, NumType, size>]
    and of [kokkostbx::vector3<NumType>], with the properties of their
    arithmetic and geometric operations.

    The array [NumType data[size]] is a [list T]; a vector object is
    well formed when its list has [size] elements.  Every loop
    [for (size_t i=0; i<size; ++i)] of the source is a [for_loop] over
    the indices [0 .. size-1] that threads the mutated object through
    the body, and [data[i] = e] is the list update [<[i:=e]> data].

    An access outside the array is undefined in C++ and the headers
    check no index.  In the embedding such a read gives the zero of the
    element type and such a write does nothing; the loops of the source
    stay below [size], so on well-formed objects neither happens. *)

From Stdlib Require Import ZArith Ring.
From stdpp Require Import base list strings pretty.

Local Open Scope Z_scope.
Local Open Scope nat_scope.

(** ** The element type

    The template parameter [NumType] is an arithmetic type.  The class
    collects what the two headers use of it: the literals [0], [1] and
    [-1] converted to [NumType], the four compound assignments, the
    comparisons [x > y] and [x != y], the conversions of [printf], and
    [Kokkos::Experimental::sqrt] (a function of the Kokkos library, taken
    here as an operation of the element type: its result converted back
    to [NumType], as [length] returns it). *)

Inductive num_kind := integral | floating_point.

Class NumType (T : Type) := {
  kind : num_kind;          (* std::is_integral / std::is_floating_point *)
  zero : T;                 (* NumType{} and the literal 0 *)
  one : T;                  (* the literal 1 *)
  neg_one : T;              (* the literal -1 *)
  add : T → T → T;          (* x + y *)
  sub : T → T → T;          (* x - y *)
  mul : T → T → T;          (* x * y *)
  div : T → T → T;          (* x / y *)
  sqrt : T → T;             (* NumType(Kokkos::Experimental::sqrt(x)) *)
  gt : T → T → bool;        (* x > y *)
  ne : T → T → bool;        (* x != y *)
  printf_d : T → string;    (* the conversion %d of printf *)
  printf_f : T → string     (* the conversion %f of printf *)
}.

(** ** Loops and output *)

(** [for (size_t i=0; i<n; ++i) body]: the state after the loop. *)
Definition for_loop {S : Type} (n : nat) (body : nat → S → S) (s : S) : S :=
  foldl (λ s i, body i s) s (seq 0 n).

(** [for (size_t i=0; i<n; ++i) { if (c(i)) return false; } return true;]
    started at index [i] with [n] iterations left. *)
Fixpoint for_all_from (n i : nat) (c : nat → bool) : bool :=
  match n with
  | O => true
  | S n' => if c i then false else for_all_from n' (S i) c
  end.

(** Standard output is the string written so far. *)
Definition printf (s : string) (out : string) : string := out +:+ s.

Definition newline : string := String (Ascii.ascii_of_nat 10) EmptyString.

#[export] Instance num_inhabited {T : Type} `{NumType T} : Inhabited T :=
  populate zero.

Section print_num.
Context {T : Type} `{NumType T}.

(** The two overloads of [print_num], selected by [std::enable_if] on
    the kind of [T]. *)
Definition print_num (x : T) (out : string) : string :=
  match kind with
  | integral => printf (printf_d x +:+ " ") out
  | floating_point => printf (printf_f x +:+ " ") out
  end.

(** What [print] is to write, in the words of its contract: the
    conversion that the selected overload of [print_num] applies, and
    every element converted and followed by one space. *)
Definition conversion (x : T) : string :=
  match kind with
  | integral => printf_d x
  | floating_point => printf_f x
  end.

Definition elements_text (data : list T) : string :=
  foldr (λ x s, (conversion x +:+ " ") +:+ s) EmptyString data.
End print_num.

(** ** vector_base *)

Module vector_base.
Section vector_base.
Context {T : Type} `{NumType T}.
Variable size : nat.

(** A well-formed object holds exactly [size] elements. *)
Definition wf (data : list T) : Prop := List.length data = size.

(** [NumType data[size] = {};] with [vector_base() = default]. *)
Definition default : list T := replicate size zero.

(** [vector_base(NumType val)]: [for (NumType& d : data) { d = val; }] *)
Definition from_val (val : T) : list T := (λ _, val) <$> default.

(** [vector_base(NumType arr[])] *)
Definition from_arr (arr : list T) : list T :=
  for_loop size (λ i data, <[i := arr !!! i]> data) default.

(** [operator[](const int index)] *)
Definition index (data : list T) (i : nat) : T := data !!! i.

(** [operator+=(const Derived& v)] and its siblings. *)
Definition add_assign (data v : list T) : list T :=
  for_loop size (λ i data, <[i := add (data !!! i) (v !!! i)]> data) data.

Definition sub_assign (data v : list T) : list T :=
  for_loop size (λ i data, <[i := sub (data !!! i) (v !!! i)]> data) data.

Definition mul_assign (data v : list T) : list T :=
  for_loop size (λ i data, <[i := mul (data !!! i) (v !!! i)]> data) data.

Definition div_assign (data v : list T) : list T :=
  for_loop size (λ i data, <[i := div (data !!! i) (v !!! i)]> data) data.

(** [operator+=(const NumType& v)] and its siblings. *)
Definition add_assign_num (data : list T) (v : T) : list T :=
  for_loop size (λ i data, <[i := add (data !!! i) v]> data) data.

Definition sub_assign_num (data : list T) (v : T) : list T :=
  for_loop size (λ i data, <[i := sub (data !!! i) v]> data) data.

Definition mul_assign_num (data : list T) (v : T) : list T :=
  for_loop size (λ i data, <[i := mul (data !!! i) v]> data) data.

Definition div_assign_num (data : list T) (v : T) : list T :=
  for_loop size (λ i data, <[i := div (data !!! i) v]> data) data.

(** [operator+(lhs, rhs)]: [Derived sum = lhs; sum += rhs; return sum;] *)
Definition operator_add (lhs rhs : list T) : list T :=
  let sum := lhs in
  let sum := add_assign sum rhs in
  sum.

(** Unary [operator-(vec)]: [negative[i] *= -1] for every [i]. *)
Definition operator_neg (vec : list T) : list T :=
  let negative := vec in
  for_loop size
    (λ i negative, <[i := mul (index negative i) neg_one]> negative)
    negative.

(** Binary [operator-(lhs, rhs)] *)
Definition operator_sub (lhs rhs : list T) : list T :=
  let sum := lhs in
  let sum := sub_assign sum rhs in
  sum.

(** [operator*(lhs, rhs)] *)
Definition operator_mul (lhs rhs : list T) : list T :=
  let prod := lhs in
  let prod := mul_assign prod rhs in
  prod.

(** [operator/(lhs, rhs)] *)
Definition operator_div (lhs rhs : list T) : list T :=
  let quot := lhs in
  let quot := div_assign quot rhs in
  quot.

(** [print(const char name[])] *)
Definition print (data : list T) (name : string) (out : string) : string :=
  let out := printf (name +:+ ": ") out in
  let out := for_loop size (λ i out, print_num (data !!! i) out) out in
  printf newline out.

(** [zero()] and [ones()] *)
Definition set_zero (data : list T) : list T :=
  for_loop size (λ i data, <[i := zero]> data) data.

Definition set_ones (data : list T) : list T :=
  for_loop size (λ i data, <[i := one]> data) data.

(** [is_zero()] *)
Definition is_zero (data : list T) : bool :=
  for_all_from size 0 (λ i, ne (data !!! i) zero).

(** [dot(const Derived& v)] *)
Definition dot (data v : list T) : T :=
  let sum := zero in
  for_loop size (λ i sum, add sum (mul (data !!! i) (v !!! i))) sum.

(** [length_sqr()] *)
Definition length_sqr (data : list T) : T :=
  let sum := zero in
  for_loop size (λ i sum, add sum (mul (data !!! i) (data !!! i))) sum.

(** [length()] *)
Definition length (data : list T) : T := sqrt (length_sqr data).

(** [normalize()]: the object after the call. *)
Definition normalize (data : list T) : list T :=
  let l := length data in
  if gt l zero then
    for_loop size (λ i data, <[i := div (data !!! i) l]> data) data
  else data.

(** [get_unit_vector()] *)
Definition get_unit_vector (data : list T) : list T :=
  let l := length data in
  let unit_vector := default in
  if gt l zero then
    for_loop size
      (λ i unit_vector, <[i := div (data !!! i) l]> unit_vector)
      unit_vector
  else unit_vector.

(** The stream insertion [operator<<(os, v)]; [show] is the insertion of
    one [NumType] value into the stream, a function of the standard
    library, and the stream is the string written so far. *)
Definition operator_shl (show : T → string) (os : string) (v : list T)
  : string :=
  for_loop size
    (λ i os,
       let os := if 0 <? i then os +:+ " " else os in
       os +:+ show (v !!! i))
    os.

End vector_base.
End vector_base.

(** ** vector3 *)

Module vector3.
Section vector3.
Context {T : Type} `{NumType T}.

(** [vector3(NumType x, NumType y, NumType z) : vector_base()] *)
Definition from_xyz (x y z : T) : list T :=
  let data := vector_base.default 3 in
  let data := <[0 := x]> data in
  let data := <[1 := y]> data in
  let data := <[2 := z]> data in
  data.

(** The read-only accessors. *)
Definition x_val (data : list T) : T := data !!! 0.
Definition y_val (data : list T) : T := data !!! 1.
Definition z_val (data : list T) : T := data !!! 2.

(** Assignment through the mutable accessors: [v.x_val() = e]. *)
Definition set_x_val (data : list T) (e : T) : list T := <[0 := e]> data.
Definition set_y_val (data : list T) (e : T) : list T := <[1 := e]> data.
Definition set_z_val (data : list T) (e : T) : list T := <[2 := e]> data.

(** [cross(const vector3<NumType>& v)] *)
Definition cross (data v : list T) : list T :=
  let cross_vector := vector_base.default 3 in
  let cross_vector :=
    set_x_val cross_vector
      (sub (mul (y_val data) (z_val v)) (mul (z_val data) (y_val v))) in
  let cross_vector :=
    set_y_val cross_vector
      (sub (mul (z_val data) (x_val v)) (mul (x_val data) (z_val v))) in
  let cross_vector :=
    set_z_val cross_vector
      (sub (mul (x_val data) (y_val v)) (mul (y_val data) (x_val v))) in
  cross_vector.

End vector3.
End vector3.

(** ** Two integral element types

    Both carry their values in [Z].  For either, the square root of the
    Kokkos library is computed in [double] and converted back to the
    element type by truncation; on the values of these types that is
    the integer square root [Z.sqrt]. *)

(** [int], on operands whose results are representable: signed overflow
    is undefined in C++, so the operations are the exact ones, with the
    quotient truncated toward zero. *)
Definition NumType_int : NumType Z := {|
  kind := integral;
  zero := 0%Z;
  one := 1%Z;
  neg_one := (-1)%Z;
  add := Z.add;
  sub := Z.sub;
  mul := Z.mul;
  div := Z.quot;
  sqrt := Z.sqrt;
  gt := λ x y, (y <? x)%Z;
  ne := λ x y, negb (x =? y)%Z;
  printf_d := λ x, pretty x;
  printf_f := λ _, EmptyString       (* never selected: [kind] is [integral] *)
|}.

(** [unsigned int], 32 bits wide: arithmetic is modulo [2^32]. *)
Definition wrap32 (x : Z) : Z := (x mod 2 ^ 32)%Z.

(** [%d] reads the 32 bits of its argument as an [int]. *)
Definition as_int32 (x : Z) : Z :=
  (if wrap32 x <? 2 ^ 31 then wrap32 x else wrap32 x - 2 ^ 32)%Z.

Definition NumType_unsigned : NumType Z := {|
  kind := integral;
  zero := 0%Z;
  one := 1%Z;
  neg_one := wrap32 (-1);
  add := λ x y, wrap32 (x + y);
  sub := λ x y, wrap32 (x - y);
  mul := λ x y, wrap32 (x * y);
  div := λ x y, (x / y)%Z;
  sqrt := Z.sqrt;
  gt := λ x y, (y <? x)%Z;
  ne := λ x y, negb (x =? y)%Z;
  printf_d := λ x, pretty (as_int32 x);
  printf_f := λ _, EmptyString       (* never selected: [kind] is [integral] *)
|}.

(** ** Exact element arithmetic

    The element operations are exact when they form a commutative ring
    in which multiplying by the literal [-1] gives the opposite. *)

Definition negate {T : Type} `{NumType T} (x : T) : T := mul x neg_one.

Definition exact_arithmetic (T : Type) `{NumType T} : Prop :=
  ring_theory zero one add mul sub negate eq.

(** * Properties *)

(** ** Loops *)

Section for_loop.
Context {S : Type}.
Implicit Types (body : nat → S → S) (s : S).

Lemma for_loop_0 body s : for_loop 0 body s = s.
Proof. reflexivity. Qed.

Lemma for_loop_S n body s :
  for_loop (Datatypes.S n) body s = body n (for_loop n body s).
Proof. unfold for_loop. by rewrite seq_S, foldl_app. Qed.

Lemma for_loop_ext n body1 body2 s :
  (∀ i s', i < n → body1 i s' = body2 i s') →
  for_loop n body1 s = for_loop n body2 s.
Proof.
  induction n as [|n IH]; intros Hb; [done|].
  rewrite !for_loop_S, IH by (intros; apply Hb; lia).
  apply Hb; lia.
Qed.

(** An invariant of the state is kept by the loop. *)
Lemma for_loop_ind (P : nat → S → Prop) n body s :
  P 0 s →
  (∀ i s', i < n → P i s' → P (Datatypes.S i) (body i s')) →
  P n (for_loop n body s).
Proof.
  intros H0 Hstep. induction n as [|n IH]; [done|].
  rewrite for_loop_S. apply Hstep; [lia|]. apply IH.
  intros; apply Hstep; [lia|done].
Qed.
End for_loop.

Lemma for_all_from_true n i (c : nat → bool) :
  for_all_from n i c = true ↔ ∀ j, i ≤ j < i + n → c j = false.
Proof.
  revert i. induction n as [|n IH]; intros i; simpl.
  - split; [intros _ j ?; lia | done].
  - destruct (c i) eqn:Hc.
    + split; [done|]. intros Hj. rewrite Hj in Hc by lia. done.
    + rewrite IH. split; intros Hj j ?.
      * destruct (decide (j = i)) as [->|]; [done|]. apply Hj; lia.
      * apply Hj; lia.
Qed.

(** ** Element-wise updates *)

Section update_loop.
Context {T : Type} `{NumType T}.
Implicit Types (data v : list T) (g : nat → T → T).

(** The loop [for i: data[i] = g(i, data[i])] touches each of the first
    [n] slots once and nothing else. *)
Lemma update_loop_length n g data :
  length (for_loop n (λ i data, <[i := g i (data !!! i)]> data) data)
  = length data.
Proof.
  apply (for_loop_ind (λ _ d, length d = length data)); [done|].
  intros i d _ Hd. by rewrite length_insert.
Qed.

Lemma update_loop_lookup n g data j :
  for_loop n (λ i data, <[i := g i (data !!! i)]> data) data !! j
  = if decide (j < n) then g j <$> data !! j else data !! j.
Proof.
  induction n as [|n IH]; [by case_decide; [lia|]|].
  rewrite for_loop_S.
  set (d := for_loop n _ data) in *.
  assert (length d = length data) as Hlen by apply update_loop_length.
  destruct (decide (j = n)) as [->|Hne].
  - rewrite decide_True by lia. rewrite decide_False in IH by lia.
    destruct (data !! n) as [x|] eqn:Hx.
    + rewrite list_lookup_insert_eq
        by (rewrite Hlen; by eapply lookup_lt_Some).
      by rewrite (list_lookup_total_correct _ _ _ IH).
    + rewrite list_insert_ge; [done|].
      rewrite Hlen. by apply lookup_ge_None.
  - rewrite list_lookup_insert_ne by done. rewrite IH.
    repeat case_decide; (done || lia).
Qed.

Lemma update_loop_imap g data :
  for_loop (length data) (λ i data, <[i := g i (data !!! i)]> data) data
  = imap g data.
Proof.
  apply list_eq; intros j.
  rewrite update_loop_lookup, list_lookup_imap.
  case_decide as Hj; [done|].
  rewrite lookup_ge_None_2 by lia. done.
Qed.
End update_loop.

(** ** vector_base: element-wise operators *)

Section elementwise.
Context {T : Type} `{NumType T}.
Variable size : nat.
Implicit Types (a b c data : list T) (f : T → T → T).

#[local] Abbreviation wf := (vector_base.wf size).

Lemma wf_lookup a j : wf a → j < size → a !! j = Some (a !!! j).
Proof.
  unfold vector_base.wf. intros <- ?. by apply list_lookup_lookup_total_lt.
Qed.

Lemma wf_lookup_ge a j : wf a → ¬ j < size → a !! j = None.
Proof. unfold vector_base.wf. intros <- ?. apply lookup_ge_None. lia. Qed.

(** What a loop [for i: data[i] = f(data[i], v.data[i])] leaves. *)
Lemma binop_loop_wf f a b :
  wf a → wf (for_loop size (λ i d, <[i := f (d !!! i) (b !!! i)]> d) a).
Proof.
  unfold vector_base.wf. intros Ha.
  by rewrite (update_loop_length size (λ i x, f x (b !!! i))).
Qed.

Lemma binop_loop_lookup f a b j :
  wf a →
  for_loop size (λ i d, <[i := f (d !!! i) (b !!! i)]> d) a !! j
  = if decide (j < size) then Some (f (a !!! j) (b !!! j)) else None.
Proof.
  intros Ha. rewrite (update_loop_lookup size (λ i x, f x (b !!! i))).
  case_decide.
  - by rewrite wf_lookup.
  - by apply wf_lookup_ge.
Qed.

Lemma binop_loop_index f a b j :
  wf a → j < size →
  for_loop size (λ i d, <[i := f (d !!! i) (b !!! i)]> d) a !!! j
  = f (a !!! j) (b !!! j).
Proof.
  intros Ha Hj. apply list_lookup_total_correct.
  rewrite binop_loop_lookup by done. by rewrite decide_True.
Qed.

(** The same for a loop [for i: data[i] = f(data[i], s)] with a fixed
    second operand. *)
Lemma scalar_loop_wf f a (s : T) :
  wf a → wf (for_loop size (λ i d, <[i := f (d !!! i) s]> d) a).
Proof.
  unfold vector_base.wf. intros Ha.
  by rewrite (update_loop_length size (λ i x, f x s)).
Qed.

Lemma scalar_loop_lookup f a (s : T) j :
  wf a →
  for_loop size (λ i d, <[i := f (d !!! i) s]> d) a !! j
  = if decide (j < size) then Some (f (a !!! j) s) else None.
Proof.
  intros Ha. rewrite (update_loop_lookup size (λ i x, f x s)).
  case_decide.
  - by rewrite wf_lookup.
  - by apply wf_lookup_ge.
Qed.

Lemma scalar_loop_index f a (s : T) j :
  wf a → j < size →
  for_loop size (λ i d, <[i := f (d !!! i) s]> d) a !!! j = f (a !!! j) s.
Proof.
  intros Ha Hj. apply list_lookup_total_correct.
  rewrite scalar_loop_lookup by done. by rewrite decide_True.
Qed.

(** Two well-formed objects with the same elements are equal. *)
Lemma wf_eq a b :
  wf a → wf b → (∀ j, j < size → a !!! j = b !!! j) → a = b.
Proof.
  intros Ha Hb Hj. apply list_eq; intros j.
  destruct (decide (j < size)).
  - rewrite !wf_lookup by done. f_equal. by apply Hj.
  - by rewrite !wf_lookup_ge.
Qed.

Lemma default_wf : wf (vector_base.default size).
Proof. apply length_replicate. Qed.

Lemma default_index j : vector_base.default size !!! j = zero.
Proof.
  unfold vector_base.default. destruct (decide (j < size)).
  - by rewrite lookup_total_replicate_2.
  - rewrite list_lookup_total_alt.
    by rewrite (proj1 (lookup_replicate_None _ _ _)) by lia.
Qed.

(** C3: For well-formed [a] and [b] and every index [i < size], the binary
    operators [+], [-], [*] and [/] yield a well-formed object whose
    element [i] is the element operation applied to [a[i]] and [b[i]];
    [*] is the element-wise product. *)
Theorem binary_operators_elementwise a b i :
  wf a → wf b → i < size →
  (wf (vector_base.operator_add size a b) ∧
   vector_base.index (vector_base.operator_add size a b) i
   = add (vector_base.index a i) (vector_base.index b i)) ∧
  (wf (vector_base.operator_sub size a b) ∧
   vector_base.index (vector_base.operator_sub size a b) i
   = sub (vector_base.index a i) (vector_base.index b i)) ∧
  (wf (vector_base.operator_mul size a b) ∧
   vector_base.index (vector_base.operator_mul size a b) i
   = mul (vector_base.index a i) (vector_base.index b i)) ∧
  (wf (vector_base.operator_div size a b) ∧
   vector_base.index (vector_base.operator_div size a b) i
   = div (vector_base.index a i) (vector_base.index b i)).
Proof.
  intros Ha _ Hi.
  unfold vector_base.operator_add, vector_base.operator_sub,
    vector_base.operator_mul, vector_base.operator_div,
    vector_base.add_assign, vector_base.sub_assign,
    vector_base.mul_assign, vector_base.div_assign, vector_base.index.
  repeat split; (by apply binop_loop_wf) || (by apply binop_loop_index).
Qed.
End elementwise.

(** ** vector_base: dot product and length *)

Section dot_length.
Context {T : Type} `{NumType T}.
Variable size : nat.
Implicit Types (a b data : list T).

Hypothesis mul_comm : ∀ x y : T, mul x y = mul y x.

(** C4: When the element product is commutative, [a.dot(b)] equals
    [b.dot(a)]; and [a.length_sqr()] equals [a.dot(a)], the two loops
    accumulating the same terms in the same order. *)
Theorem dot_comm_length_sqr_dot a b :
  vector_base.dot size a b = vector_base.dot size b a ∧
  vector_base.length_sqr size a = vector_base.dot size a a.
Proof.
  split; [|reflexivity].
  unfold vector_base.dot. apply for_loop_ext.
  intros i sum _. by rewrite mul_comm.
Qed.
End dot_length.

(** C7: [a.length()] is the square root, as the element type computes it,
    of [a.length_sqr()]; for the integral element types
    [Vector3(3,4,0).length()] is exactly 5. *)
Theorem length_sqrt_length_sqr :
  (∀ (T : Type) (H : NumType T) (size : nat) (a : list T),
     vector_base.length size a = sqrt (vector_base.length_sqr size a)) ∧
  vector_base.length_sqr (H := NumType_int) 3
    (vector3.from_xyz (H := NumType_int) 3 4 0)%Z = 25%Z ∧
  vector_base.length (H := NumType_int) 3
    (vector3.from_xyz (H := NumType_int) 3 4 0)%Z = 5%Z ∧
  vector_base.length (H := NumType_unsigned) 3
    (vector3.from_xyz (H := NumType_unsigned) 3 4 0)%Z = 5%Z.
Proof. repeat split. Qed.

(** ** vector_base: normalisation *)

Section normalize.
Context {T : Type} `{NumType T}.
Variable size : nat.
Implicit Types (a data : list T).

#[local] Abbreviation wf := (vector_base.wf size).

(** The loop of [get_unit_vector] fills the fresh object with the
    quotients. *)
Lemma unit_loop_lookup a (l : T) j :
  for_loop size (λ i u, <[i := div (a !!! i) l]> u)
    (vector_base.default size) !! j
  = if decide (j < size) then Some (div (a !!! j) l) else None.
Proof.
  rewrite (update_loop_lookup size (λ i _, div (a !!! i) l)).
  case_decide.
  - by rewrite (wf_lookup size) by (done || apply default_wf).
  - by apply (wf_lookup_ge size); [apply default_wf|].
Qed.

Lemma normalize_pos a :
  gt (vector_base.length size a) zero = true →
  vector_base.normalize size a
  = for_loop size
      (λ i d, <[i := div (d !!! i) (vector_base.length size a)]> d) a.
Proof. unfold vector_base.normalize. by intros ->. Qed.

Lemma get_unit_vector_pos a :
  gt (vector_base.length size a) zero = true →
  vector_base.get_unit_vector size a
  = for_loop size
      (λ i u, <[i := div (a !!! i) (vector_base.length size a)]> u)
      (vector_base.default size).
Proof. unfold vector_base.get_unit_vector. by intros ->. Qed.

Lemma normalize_not_pos a :
  gt (vector_base.length size a) zero = false →
  vector_base.normalize size a = a.
Proof. unfold vector_base.normalize. by intros ->. Qed.

Lemma get_unit_vector_not_pos a :
  gt (vector_base.length size a) zero = false →
  vector_base.get_unit_vector size a = vector_base.default size.
Proof. unfold vector_base.get_unit_vector. by intros ->. Qed.

(** Past the guard the two loops store the same quotients. *)
Lemma normalize_pos_get_unit_vector a :
  wf a →
  gt (vector_base.length size a) zero = true →
  vector_base.normalize size a = vector_base.get_unit_vector size a.
Proof.
  intros Ha Hl. rewrite normalize_pos, get_unit_vector_pos by done.
  apply list_eq; intros j.
  rewrite (scalar_loop_lookup size div a (vector_base.length size a)) by done.
  by rewrite unit_loop_lookup.
Qed.

(** C10: For a well-formed [a]: when [length() > 0], the object left by
    [a.normalize()] equals the value of [a.get_unit_vector()], element
    [i] of both being [a[i] / length()]; when [length() > 0] does not
    hold, [normalize] leaves [a] as it is and [get_unit_vector] returns
    the zero vector, so that the two agree exactly when [a] is the zero
    vector. *)
Theorem normalize_get_unit_vector a :
  wf a →
  (gt (vector_base.length size a) zero = true →
     vector_base.normalize size a = vector_base.get_unit_vector size a ∧
     ∀ i, i < size →
       vector_base.index (vector_base.normalize size a) i
       = div (vector_base.index a i) (vector_base.length size a)) ∧
  (gt (vector_base.length size a) zero = false →
     vector_base.normalize size a = a ∧
     vector_base.get_unit_vector size a = vector_base.default size ∧
     (vector_base.normalize size a = vector_base.get_unit_vector size a
      ↔ a = vector_base.default size)).
Proof.
  intros Ha. split; intros Hl.
  - split; [by apply normalize_pos_get_unit_vector|].
    intros i Hi. rewrite normalize_pos by done. unfold vector_base.index.
    by apply (scalar_loop_index size div a (vector_base.length size a)).
  - rewrite normalize_not_pos, get_unit_vector_not_pos by done.
    done.
Qed.

Hypothesis gt_zero_zero : gt (zero : T) zero = false.
Hypothesis ne_zero : ∀ x : T, ne x zero = false → x = zero.
Hypothesis sqrt_zero : sqrt (zero : T) = zero.
Hypothesis add_mul_zero : add (zero : T) (mul zero zero) = zero.

Lemma is_zero_index a i :
  vector_base.is_zero size a = true → i < size → a !!! i = zero.
Proof.
  unfold vector_base.is_zero. rewrite for_all_from_true.
  intros Ha Hi. apply ne_zero, Ha. lia.
Qed.

Lemma is_zero_length a :
  vector_base.is_zero size a = true → vector_base.length size a = zero.
Proof.
  intros Ha. unfold vector_base.length, vector_base.length_sqr.
  rewrite <- sqrt_zero at 2. f_equal.
  apply (for_loop_ind (λ _ sum, sum = zero)); [done|].
  intros i sum Hi ->. by rewrite (is_zero_index a i).
Qed.

(** C2: If [a.length()] is zero then [a.normalize()] leaves [a] unchanged
    and [a.get_unit_vector()] returns the zero vector; and
    [a.length()] is zero whenever [a.is_zero()] holds. *)
Theorem zero_length_normalize a :
  (vector_base.length size a = zero →
     vector_base.normalize size a = a ∧
     vector_base.get_unit_vector size a = vector_base.default size) ∧
  (vector_base.is_zero size a = true →
     vector_base.length size a = zero ∧
     vector_base.normalize size a = a ∧
     vector_base.get_unit_vector size a = vector_base.default size).
Proof.
  assert (vector_base.length size a = zero →
          vector_base.normalize size a = a ∧
          vector_base.get_unit_vector size a = vector_base.default size)
    as Hlen.
  { intros Hl. split.
    - apply normalize_not_pos. by rewrite Hl.
    - apply get_unit_vector_not_pos. by rewrite Hl. }
  split; [done|].
  intros Hz. split; [by apply is_zero_length|].
  by apply Hlen, is_zero_length.
Qed.
End normalize.

(** ** Exact element arithmetic: the ring laws *)

Lemma int_exact_arithmetic : exact_arithmetic Z (H := NumType_int).
Proof.
  constructor; simpl; unfold negate; simpl; intros; lia.
Qed.

Section exact.
Context {T : Type} `{NumType T}.
Hypothesis exact : exact_arithmetic T.

Add Ring exact_ring :
  (exact : ring_theory (zero : T) one add mul sub negate eq).

Lemma mul_neg_one (x : T) : mul x neg_one = sub zero x.
Proof. change (negate x = sub zero x). ring. Qed.

Section addition.
Variable size : nat.
Implicit Types (a b c : list T).

#[local] Abbreviation wf := (vector_base.wf size).

Lemma operator_add_wf a b : wf a → wf (vector_base.operator_add size a b).
Proof. apply binop_loop_wf. Qed.

Lemma operator_add_index a b j :
  wf a → j < size →
  vector_base.operator_add size a b !!! j = add (a !!! j) (b !!! j).
Proof. apply binop_loop_index. Qed.

Lemma operator_neg_wf a : wf a → wf (vector_base.operator_neg size a).
Proof. apply (scalar_loop_wf size mul a neg_one). Qed.

Lemma operator_neg_index a j :
  wf a → j < size →
  vector_base.operator_neg size a !!! j = mul (a !!! j) neg_one.
Proof. apply (scalar_loop_index size mul a neg_one). Qed.

(** C6: Under exact element arithmetic and for well-formed [a], [b], [c]:
    [a+b = b+a], [(a+b)+c = a+(b+c)], [a + (-a)] is the zero vector,
    and [-a] is a well-formed object whose every element is the
    opposite of the element of [a]. *)
Theorem addition_comm_assoc_inverse a b c :
  wf a → wf b → wf c →
  vector_base.operator_add size a b = vector_base.operator_add size b a ∧
  vector_base.operator_add size (vector_base.operator_add size a b) c
  = vector_base.operator_add size a (vector_base.operator_add size b c) ∧
  vector_base.operator_add size a (vector_base.operator_neg size a)
  = vector_base.default size ∧
  wf (vector_base.operator_neg size a) ∧
  ∀ i, i < size →
    vector_base.index (vector_base.operator_neg size a) i
    = sub zero (vector_base.index a i).
Proof.
  intros Ha Hb Hc. repeat split.
  - apply (wf_eq size); [by apply operator_add_wf..|].
    intros j Hj. rewrite !operator_add_index by done. ring.
  - apply (wf_eq size); [by repeat apply operator_add_wf..|].
    intros j Hj.
    rewrite !operator_add_index by (done || by apply operator_add_wf).
    ring.
  - apply (wf_eq size); [by apply operator_add_wf|apply default_wf|].
    intros j Hj.
    rewrite operator_add_index, operator_neg_index by done.
    rewrite default_index, mul_neg_one. ring.
  - by apply operator_neg_wf.
  - intros i Hi. unfold vector_base.index.
    rewrite operator_neg_index by done. apply mul_neg_one.
Qed.
End addition.
End exact.

(** ** vector3: the cross product *)

Section cross.
Context {T : Type} `{NumType T}.
Implicit Types (a b : list T).

#[local] Abbreviation wf3 := (vector_base.wf 3).

Lemma from_xyz_list (x y z : T) : vector3.from_xyz x y z = [x; y; z].
Proof. reflexivity. Qed.

(** A well-formed [vector3] is its three components. *)
Lemma wf3_inv a :
  wf3 a → a = vector3.from_xyz (vector3.x_val a) (vector3.y_val a) (vector3.z_val a).
Proof.
  unfold vector_base.wf. intros Ha.
  destruct a as [|x [|y [|z [|? ?]]]]; by simplify_eq/=.
Qed.

Lemma cross_wf a b : wf3 (vector3.cross a b).
Proof. reflexivity. Qed.

Lemma cross_from_xyz a b :
  vector3.cross a b =
  vector3.from_xyz
    (sub (mul (vector3.y_val a) (vector3.z_val b))
         (mul (vector3.z_val a) (vector3.y_val b)))
    (sub (mul (vector3.z_val a) (vector3.x_val b))
         (mul (vector3.x_val a) (vector3.z_val b)))
    (sub (mul (vector3.x_val a) (vector3.y_val b))
         (mul (vector3.y_val a) (vector3.x_val b))).
Proof. reflexivity. Qed.
End cross.

(** C1: [a.cross(b)] is a well-formed [vector3] whose components are
    [x = a.y*b.z - a.z*b.y], [y = a.z*b.x - a.x*b.z] and
    [z = a.x*b.y - a.y*b.x]; for the integral element types,
    [Vector3(1,0,0).cross(Vector3(0,1,0))] is [Vector3(0,0,1)]. *)
Theorem cross_formula :
  (∀ (T : Type) (H : NumType T) (a b : list T),
     vector_base.wf 3 (vector3.cross a b) ∧
     vector3.x_val (vector3.cross a b)
     = sub (mul (vector3.y_val a) (vector3.z_val b))
           (mul (vector3.z_val a) (vector3.y_val b)) ∧
     vector3.y_val (vector3.cross a b)
     = sub (mul (vector3.z_val a) (vector3.x_val b))
           (mul (vector3.x_val a) (vector3.z_val b)) ∧
     vector3.z_val (vector3.cross a b)
     = sub (mul (vector3.x_val a) (vector3.y_val b))
           (mul (vector3.y_val a) (vector3.x_val b))) ∧
  vector3.cross (H := NumType_int)
    (vector3.from_xyz (H := NumType_int) 1 0 0)%Z
    (vector3.from_xyz (H := NumType_int) 0 1 0)%Z
  = (vector3.from_xyz (H := NumType_int) 0 0 1)%Z ∧
  vector3.cross (H := NumType_unsigned)
    (vector3.from_xyz (H := NumType_unsigned) 1 0 0)%Z
    (vector3.from_xyz (H := NumType_unsigned) 0 1 0)%Z
  = (vector3.from_xyz (H := NumType_unsigned) 0 0 1)%Z.
Proof. repeat split. Qed.

Section cross_exact.
Context {T : Type} `{NumType T}.
Hypothesis exact : exact_arithmetic T.
Implicit Types (a b : list T).

Add Ring cross_ring :
  (exact : ring_theory (zero : T) one add mul sub negate eq).

Lemma dot3 (x y z x' y' z' : T) :
  vector_base.dot 3 [x; y; z] [x'; y'; z']
  = add (add (add zero (mul x x')) (mul y y')) (mul z z').
Proof. reflexivity. Qed.

Lemma operator_neg3 (x y z : T) :
  vector_base.operator_neg 3 [x; y; z]
  = [mul x neg_one; mul y neg_one; mul z neg_one].
Proof. reflexivity. Qed.

(** C5: Under exact element arithmetic and for well-formed 3-component
    [a] and [b]: [a.cross(b) = -(b.cross(a))], [a.cross(a)] is the zero
    vector, and [a.cross(b)] has a zero dot product with [a] and with
    [b]. *)
Theorem cross_anticomm_orthogonal a b :
  vector_base.wf 3 a → vector_base.wf 3 b →
  vector3.cross a b = vector_base.operator_neg 3 (vector3.cross b a) ∧
  vector3.cross a a = vector_base.default 3 ∧
  vector_base.dot 3 (vector3.cross a b) a = zero ∧
  vector_base.dot 3 (vector3.cross a b) b = zero.
Proof.
  intros Ha Hb.
  rewrite (wf3_inv a Ha), (wf3_inv b Hb).
  generalize (vector3.x_val a) (vector3.y_val a) (vector3.z_val a)
    (vector3.x_val b) (vector3.y_val b) (vector3.z_val b).
  intros a0 a1 a2 b0 b1 b2.
  rewrite !cross_from_xyz, !from_xyz_list.
  unfold vector3.x_val, vector3.y_val, vector3.z_val. simpl.
  rewrite operator_neg3, !dot3, !mul_neg_one by done.
  unfold vector_base.default. simpl.
  repeat split; repeat apply (f_equal2 cons); try reflexivity; ring.
Qed.
End cross_exact.

(** ** Construction *)

Section construction.
Context {T : Type} `{NumType T}.

Lemma from_val_replicate size (val : T) :
  vector_base.from_val size val = replicate size val.
Proof.
  unfold vector_base.from_val, vector_base.default.
  by rewrite fmap_replicate.
Qed.

(** Construction from a sequence of [size] values copies it. *)
Lemma from_arr_copy size (arr : list T) :
  vector_base.wf size arr → vector_base.from_arr size arr = arr.
Proof.
  intros Harr. unfold vector_base.from_arr.
  apply list_eq; intros j.
  rewrite (update_loop_lookup size (λ i _, arr !!! i)).
  case_decide.
  - by rewrite !(wf_lookup size) by (done || apply default_wf).
  - rewrite !(wf_lookup_ge size); done || apply default_wf.
Qed.
End construction.

(** C8: Default construction yields [size] elements, all the zero of the
    element type; construction from a scalar [v] yields [size] elements,
    all [v]; [Vector3(x, y, z)] has the elements [x], [y], [z] at the
    indices 0, 1, 2 and equals the object constructed from the sequence
    [[x, y, z]]. *)
Theorem construction_postconditions (T : Type) (H : NumType T) :
  (∀ size,
     vector_base.wf size (vector_base.default size) ∧
     ∀ i, i < size → vector_base.default size !! i = Some zero) ∧
  (∀ size (v : T),
     vector_base.wf size (vector_base.from_val size v) ∧
     ∀ i, i < size → vector_base.from_val size v !! i = Some v) ∧
  (∀ x y z : T,
     vector_base.wf 3 (vector3.from_xyz x y z) ∧
     vector3.from_xyz x y z !! 0 = Some x ∧
     vector3.from_xyz x y z !! 1 = Some y ∧
     vector3.from_xyz x y z !! 2 = Some z ∧
     vector3.from_xyz x y z = vector_base.from_arr 3 [x; y; z]).
Proof.
  split; [|split].
  - intros size. split; [apply default_wf|].
    intros i Hi. by apply lookup_replicate_2.
  - intros size v. rewrite from_val_replicate. split.
    + apply length_replicate.
    + intros i Hi. by apply lookup_replicate_2.
  - intros x y z. repeat split.
Qed.

(** ** print *)

Lemma string_app_assoc (s1 s2 s3 : string) :
  (s1 +:+ s2) +:+ s3 = s1 +:+ (s2 +:+ s3).
Proof.
  induction s1 as [|c s1 IH]; [done|].
  change (String c ((s1 +:+ s2) +:+ s3) = String c (s1 +:+ (s2 +:+ s3))).
  by rewrite IH.
Qed.

Lemma string_app_empty_r (s : string) : s +:+ EmptyString = s.
Proof.
  induction s as [|c s IH]; [done|].
  change (String c (s +:+ EmptyString) = String c s). by rewrite IH.
Qed.

Section print.
Context {T : Type} `{NumType T}.
Variable size : nat.
Implicit Types (data : list T) (name out : string).

Lemma print_num_conversion (x : T) out :
  print_num x out = out +:+ (conversion x +:+ " ").
Proof. unfold print_num, conversion, printf. by destruct kind. Qed.

Lemma elements_text_snoc data (x : T) :
  elements_text (data ++ [x])
  = elements_text data +:+ (conversion x +:+ " ").
Proof.
  induction data as [|y data IH].
  - change ((conversion x +:+ " ") +:+ EmptyString = conversion x +:+ " ").
    by rewrite string_app_empty_r.
  - change (((conversion y +:+ " ") +:+ elements_text (data ++ [x]))
            = ((conversion y +:+ " ") +:+ elements_text data)
              +:+ (conversion x +:+ " ")).
    by rewrite IH, !string_app_assoc.
Qed.

Lemma print_loop n data out :
  n ≤ length data →
  for_loop n (λ i out, print_num (data !!! i) out) out
  = out +:+ elements_text (take n data).
Proof.
  induction n as [|n IH]; intros Hn.
  - by rewrite take_0, for_loop_0, string_app_empty_r.
  - rewrite for_loop_S, IH, print_num_conversion by lia.
    rewrite (take_S_r data n (data !!! n))
      by (apply list_lookup_lookup_total_lt; lia).
    by rewrite elements_text_snoc, string_app_assoc.
Qed.

Lemma print_text data name out :
  vector_base.wf size data →
  vector_base.print size data name out
  = out +:+ name +:+ ": " +:+ elements_text data +:+ newline.
Proof.
  unfold vector_base.wf, vector_base.print, printf. intros Hlen.
  rewrite print_loop by lia.
  rewrite <- Hlen, firstn_all.
  by rewrite !string_app_assoc.
Qed.
End print.

(** C9: For a well-formed object, [print(name)] appends to the output the
    name, [": "], every element converted by the overload of [print_num]
    for the kind of the element type and followed by one space, and a
    newline; for the integral element types, printing [Vector3(1,2,3)]
    under the name ["v"] writes ["v: 1 2 3 "] and a newline. *)
Theorem print_contract :
  (∀ (T : Type) (H : NumType T) (size : nat) (data : list T)
     (name out : string),
     vector_base.wf size data →
     vector_base.print size data name out
     = out +:+ name +:+ ": " +:+ elements_text data +:+ newline) ∧
  (∀ (T : Type) (H : NumType T) (x : T) (out : string),
     print_num x out = out +:+ conversion x +:+ " ") ∧
  vector_base.print (H := NumType_int) 3
    (vector3.from_xyz (H := NumType_int) 1 2 3)%Z "v" EmptyString
  = "v: 1 2 3 " +:+ newline ∧
  vector_base.print (H := NumType_unsigned) 3
    (vector3.from_xyz (H := NumType_unsigned) 1 2 3)%Z "v" EmptyString
  = "v: 1 2 3 " +:+ newline.
Proof.
  split; [|split; [|split]].
  - intros. by apply print_text.
  - intros. apply print_num_conversion.
  - vm_compute. reflexivity.
  - vm_compute. reflexivity.
Qed.

(** ** The laws at the integral element types *)

Lemma int_ne_zero (x : Z) : @ne Z NumType_int x 0%Z = false → x = 0%Z.
Proof.
  simpl. intros Hx. apply negb_false_iff in Hx. by apply Z.eqb_eq.
Qed.

Lemma unsigned_mul_comm (x y : Z) :
  @mul Z NumType_unsigned x y = @mul Z NumType_unsigned y x.
Proof. simpl. by rewrite Z.mul_comm. Qed.

(** ** Instances of the theorems *)

Section int_instances.
#[local] Existing Instance NumType_int.



Lemma zero_length_normalize_int :
  vector_base.is_zero 3 [0; 0; 0]%Z = true ∧
  vector_base.length 3 [0; 0; 0]%Z = 0%Z ∧
  vector_base.normalize 3 [0; 0; 0]%Z = [0; 0; 0]%Z ∧
  vector_base.get_unit_vector 3 [0; 0; 0]%Z
  = [0; 0; 0]%Z.
Proof.
  split; [reflexivity|].
  apply (proj2 (zero_length_normalize (H := NumType_int) 3
                  eq_refl int_ne_zero eq_refl eq_refl [0; 0; 0]%Z)).
  reflexivity.
Defined.

Lemma binary_operators_elementwise_int :
  vector_base.index
    (vector_base.operator_add 4
       (vector_base.from_val 4 2%Z) (vector_base.from_val 4 3%Z)) 1 = 5%Z ∧
  vector_base.index
    (vector_base.operator_div 4
       (vector_base.from_val 4 2%Z) (vector_base.from_val 4 3%Z)) 1 = 0%Z.
Proof.
  pose proof (binary_operators_elementwise (H := NumType_int) 4
                (vector_base.from_val 4 2%Z) (vector_base.from_val 4 3%Z) 1
                eq_refl eq_refl ltac:(lia)) as (Hadd & _ & _ & Hdiv).
  split; [apply Hadd | apply Hdiv].
Defined.

Lemma cross_anticomm_orthogonal_int :
  vector3.cross [1; 2; 3]%Z [4; 5; 6]%Z
  = vector_base.operator_neg 3
      (vector3.cross [4; 5; 6]%Z [1; 2; 3]%Z) ∧
  vector3.cross [1; 2; 3]%Z [1; 2; 3]%Z
  = vector_base.default 3 ∧
  vector_base.dot 3 (vector3.cross [1; 2; 3]%Z [4; 5; 6]%Z)
    [1; 2; 3]%Z = 0%Z ∧
  vector_base.dot 3 (vector3.cross [1; 2; 3]%Z [4; 5; 6]%Z)
    [4; 5; 6]%Z = 0%Z.
Proof.
  apply (cross_anticomm_orthogonal (H := NumType_int) int_exact_arithmetic
           [1; 2; 3]%Z [4; 5; 6]%Z eq_refl eq_refl).
Defined.

Lemma addition_comm_assoc_inverse_int :
  vector_base.operator_add 3 [1; 2; 3]%Z [4; 5; 6]%Z
  = vector_base.operator_add 3 [4; 5; 6]%Z [1; 2; 3]%Z ∧
  vector_base.operator_add 3
    (vector_base.operator_add 3 [1; 2; 3]%Z [4; 5; 6]%Z) [7; 8; 9]%Z
  = vector_base.operator_add 3 [1; 2; 3]%Z
      (vector_base.operator_add 3 [4; 5; 6]%Z [7; 8; 9]%Z) ∧
  vector_base.operator_add 3 [1; 2; 3]%Z
    (vector_base.operator_neg 3 [1; 2; 3]%Z)
  = vector_base.default 3 ∧
  vector_base.index (vector_base.operator_neg 3 [1; 2; 3]%Z) 2
  = (-3)%Z.
Proof.
  pose proof (addition_comm_assoc_inverse (H := NumType_int)
                int_exact_arithmetic 3 [1; 2; 3]%Z [4; 5; 6]%Z [7; 8; 9]%Z
                eq_refl eq_refl eq_refl) as (Hc & Ha & Hi & _ & Hn).
  split; [apply Hc|]. split; [apply Ha|]. split; [apply Hi|].
  apply (Hn 2). lia.
Defined.

Lemma construction_postconditions_int :
  vector_base.default 4 !! 3 = Some 0%Z ∧
  vector_base.from_val 4 7%Z !! 3 = Some 7%Z.
Proof.
  pose proof (construction_postconditions Z NumType_int) as (Hd & Hv & _).
  split.
  - apply (proj2 (Hd 4) 3). lia.
  - apply (proj2 (Hv 4 7%Z) 3). lia.
Defined.

Lemma print_contract_int :
  vector_base.print 2 [10; -4]%Z "w" "> "
  = "> w: 10 -4 " +:+ newline.
Proof.
  rewrite (proj1 print_contract Z NumType_int 2 [10; -4]%Z "w" "> " eq_refl).
  reflexivity.
Defined.

Lemma normalize_get_unit_vector_int :
  vector_base.normalize 3 [0; 5; 0]%Z
  = vector_base.get_unit_vector 3 [0; 5; 0]%Z ∧
  vector_base.index (vector_base.normalize 3 [0; 5; 0]%Z) 1
  = 1%Z.
Proof.
  pose proof (proj1 (normalize_get_unit_vector (H := NumType_int) 3
                       [0; 5; 0]%Z eq_refl) eq_refl) as [Heq Hidx].
  split; [apply Heq | apply (Hidx 1); lia].
Defined.

End int_instances.

Section unsigned_instances.
#[local] Existing Instance NumType_unsigned.

Lemma dot_comm_length_sqr_dot_unsigned :
  vector_base.dot 3 [1; 2; 3]%Z [4; 5; 6]%Z
  = vector_base.dot 3 [4; 5; 6]%Z [1; 2; 3]%Z ∧
  vector_base.length_sqr 3 [1; 2; 3]%Z
  = vector_base.dot 3 [1; 2; 3]%Z [1; 2; 3]%Z.
Proof.
  apply (dot_comm_length_sqr_dot (H := NumType_unsigned) 3 unsigned_mul_comm).
Defined.

(** With [unsigned int] elements the squares wrap: [(65536, 0, 0)] has
    [length_sqr() == 0], so [normalize] leaves it as it is while
    [get_unit_vector] returns the zero vector. *)
Lemma normalize_get_unit_vector_differ :
  vector_base.normalize (H := NumType_unsigned) 3
    (vector3.from_xyz (H := NumType_unsigned) 65536 0 0)%Z
  ≠ vector_base.get_unit_vector (H := NumType_unsigned) 3
      (vector3.from_xyz (H := NumType_unsigned) 65536 0 0)%Z.
Proof. vm_compute. discriminate. Qed.
End unsigned_instances.

(** * Further properties of the two headers *)

(** ** Construction from an array, scalar operands, [zero] and [ones] *)

Section more_elementwise.
Context {T : Type} `{NumType T}.
Variable size : nat.
Implicit Types (a b data arr : list T) (s : T).

#[local] Abbreviation wf := (vector_base.wf size).

Lemma from_val_wf s : wf (vector_base.from_val size s).
Proof. rewrite from_val_replicate. apply length_replicate. Qed.

Lemma from_val_index s j :
  j < size → vector_base.from_val size s !!! j = s.
Proof. intros Hj. rewrite from_val_replicate. by apply lookup_total_replicate_2. Qed.

(** X1: [vector_base(NumType arr[])] reads the first [size] values of
    an array that holds at least that many and nothing after them: the
    object is their copy. *)
Theorem from_arr_take arr :
  size ≤ length arr →
  vector_base.from_arr size arr = take size arr ∧
  wf (vector_base.from_arr size arr) ∧
  ∀ i, i < size →
    vector_base.index (vector_base.from_arr size arr) i
    = vector_base.index arr i.
Proof.
  intros Harr.
  assert (vector_base.from_arr size arr = take size arr) as Heq.
  { unfold vector_base.from_arr. apply list_eq; intros j.
    rewrite (update_loop_lookup size (λ i _, arr !!! i)).
    case_decide as Hj.
    - rewrite (wf_lookup size) by (done || apply default_wf).
      rewrite lookup_take_lt by done. simpl.
      symmetry. apply list_lookup_lookup_total_lt. lia.
    - rewrite (wf_lookup_ge size) by (done || apply default_wf).
      symmetry. apply lookup_take_ge. lia. }
  rewrite Heq. split; [done|]. split.
  - unfold vector_base.wf. by apply length_take_le.
  - intros i Hi. unfold vector_base.index. by apply lookup_total_take_lt.
Qed.



Lemma set_zero_default a : wf a → vector_base.set_zero size a = vector_base.default size.
Proof.
  intros Ha. unfold vector_base.set_zero. apply list_eq; intros j.
  rewrite (update_loop_lookup size (λ _ _, zero)).
  case_decide as Hj.
  - rewrite !(wf_lookup size) by (done || apply default_wf).
    by rewrite default_index.
  - by rewrite !(wf_lookup_ge size) by (done || apply default_wf).
Qed.

Lemma is_zero_default :
  ne (zero : T) zero = false →
  vector_base.is_zero size (vector_base.default size) = true.
Proof.
  intros Hne. unfold vector_base.is_zero. apply for_all_from_true.
  intros j _. by rewrite default_index.
Qed.

(** X4: on a well-formed [a], [zero()] leaves the default-constructed
    vector and [ones()] the vector constructed from the scalar 1; when
    [0 != 0] is false, [is_zero()] holds after [zero()]. *)
Theorem zero_ones_reset a :
  wf a →
  ne (zero : T) zero = false →
  vector_base.set_zero size a = vector_base.default size ∧
  vector_base.set_ones size a = vector_base.from_val size one ∧
  vector_base.is_zero size (vector_base.set_zero size a) = true.
Proof.
  intros Ha Hne. split; [by apply set_zero_default|]. split.
  - unfold vector_base.set_ones. apply list_eq; intros j.
    rewrite (update_loop_lookup size (λ _ _, one)).
    case_decide as Hj.
    + rewrite !(wf_lookup size) by (done || apply from_val_wf).
      by rewrite from_val_index.
    + by rewrite !(wf_lookup_ge size) by (done || apply from_val_wf).
  - rewrite set_zero_default by done. by apply is_zero_default.
Qed.
End more_elementwise.

(** ** [is_zero] and the size of the array *)

Lemma for_all_from_false n i (c : nat → bool) :
  for_all_from n i c = false ↔ ∃ j, i ≤ j < i + n ∧ c j = true.
Proof.
  revert i. induction n as [|n IH]; intros i; simpl.
  - split; [done|]. intros (j & ? & _). lia.
  - destruct (c i) eqn:Hc.
    + split; [|done]. intros _. exists i. split; [lia|done].
    + rewrite IH. split; intros (j & Hj & Hcj).
      * exists j. split; [lia|done].
      * exists j. split; [|done].
        destruct (decide (j = i)) as [->|]; [congruence|lia].
Qed.

Section is_zero.
Context {T : Type} `{NumType T}.
Variable size : nat.
Implicit Types (a v : list T) (s : T).

#[local] Abbreviation wf := (vector_base.wf size).

(** X5: [is_zero()] returns true exactly when [a[i] != 0] is false at
    every index below [size], and false exactly when it is true at one
    of them. *)
Theorem is_zero_elements a :
  (vector_base.is_zero size a = true ↔
   ∀ i, i < size → ne (vector_base.index a i) zero = false) ∧
  (vector_base.is_zero size a = false ↔
   ∃ i, i < size ∧ ne (vector_base.index a i) zero = true).
Proof.
  unfold vector_base.is_zero, vector_base.index. split.
  - rewrite for_all_from_true. split; intros Ha i Hi; apply Ha; lia.
  - rewrite for_all_from_false. split; intros (i & Hi & Hne);
      exists i; (split; [lia|done]).
Qed.

(** X6: when [x != 0] is false for [x = 0] only, a well-formed [a] has
    [is_zero()] true exactly when it equals the default-constructed
    vector. *)
Theorem is_zero_default_iff a :
  (∀ x : T, ne x zero = false ↔ x = zero) →
  wf a →
  (vector_base.is_zero size a = true ↔ a = vector_base.default size).
Proof.
  intros Hne Ha. split.
  - intros Hz. apply (wf_eq size); [done|apply default_wf|].
    intros j Hj. rewrite default_index. apply Hne.
    unfold vector_base.is_zero in Hz.
    rewrite for_all_from_true in Hz. apply Hz. lia.
  - intros ->. apply is_zero_default. by apply Hne.
Qed.

(** X7: no operation that works in place changes the number of elements
    of the object, whatever the operand, and [get_unit_vector] always
    returns [size] elements. *)
Theorem in_place_operations_keep_size a v s :
  length (vector_base.add_assign size a v) = length a ∧
  length (vector_base.sub_assign size a v) = length a ∧
  length (vector_base.mul_assign size a v) = length a ∧
  length (vector_base.div_assign size a v) = length a ∧
  length (vector_base.add_assign_num size a s) = length a ∧
  length (vector_base.sub_assign_num size a s) = length a ∧
  length (vector_base.mul_assign_num size a s) = length a ∧
  length (vector_base.div_assign_num size a s) = length a ∧
  length (vector_base.operator_neg size a) = length a ∧
  length (vector_base.set_zero size a) = length a ∧
  length (vector_base.set_ones size a) = length a ∧
  length (vector_base.normalize size a) = length a ∧
  wf (vector_base.get_unit_vector size a).
Proof.
  repeat split.
  - apply (update_loop_length size (λ i x, add x (v !!! i))).
  - apply (update_loop_length size (λ i x, sub x (v !!! i))).
  - apply (update_loop_length size (λ i x, mul x (v !!! i))).
  - apply (update_loop_length size (λ i x, div x (v !!! i))).
  - apply (update_loop_length size (λ i x, add x s)).
  - apply (update_loop_length size (λ i x, sub x s)).
  - apply (update_loop_length size (λ i x, mul x s)).
  - apply (update_loop_length size (λ i x, div x s)).
  - apply (update_loop_length size (λ i x, mul x neg_one)).
  - apply (update_loop_length size (λ _ _, zero)).
  - apply (update_loop_length size (λ _ _, one)).
  - unfold vector_base.normalize.
    destruct (gt (vector_base.length size a) zero); [|done].
    apply (update_loop_length size
             (λ i x, div x (vector_base.length size a))).
  - unfold vector_base.get_unit_vector, vector_base.wf.
    destruct (gt (vector_base.length size a) zero).
    + rewrite (update_loop_length size
                 (λ i _, div (a !!! i) (vector_base.length size a))).
      apply default_wf.
    + apply default_wf.
Qed.
End is_zero.

(** ** Exact element arithmetic: subtraction, products, [dot], [cross] *)

Section more_exact.
Context {T : Type} `{NumType T}.
Hypothesis exact : exact_arithmetic T.

Add Ring more_exact_ring :
  (exact : ring_theory (zero : T) one add mul sub negate eq).

Section any_size.
Variable size : nat.
Implicit Types (a b c : list T) (s : T).

#[local] Abbreviation wf := (vector_base.wf size).

Lemma operator_sub_wf a b : wf a → wf (vector_base.operator_sub size a b).
Proof. apply binop_loop_wf. Qed.

Lemma operator_sub_index a b j :
  wf a → j < size →
  vector_base.operator_sub size a b !!! j = sub (a !!! j) (b !!! j).
Proof. apply binop_loop_index. Qed.

Lemma operator_mul_wf a b : wf a → wf (vector_base.operator_mul size a b).
Proof. apply binop_loop_wf. Qed.

Lemma operator_mul_index a b j :
  wf a → j < size →
  vector_base.operator_mul size a b !!! j = mul (a !!! j) (b !!! j).
Proof. apply binop_loop_index. Qed.

(** X8: under exact element arithmetic and for well-formed [a] and [b]:
    [a - b] is [a + (-b)], [(a + b) - b] is [a], [a - a] is the zero
    vector and [-(-a)] is [a]. *)
Theorem subtraction_laws a b :
  wf a → wf b →
  vector_base.operator_sub size a b
  = vector_base.operator_add size a (vector_base.operator_neg size b) ∧
  vector_base.operator_sub size (vector_base.operator_add size a b) b = a ∧
  vector_base.operator_sub size a a = vector_base.default size ∧
  vector_base.operator_neg size (vector_base.operator_neg size a) = a.
Proof.
  intros Ha Hb. repeat split.
  - apply (wf_eq size); [by apply operator_sub_wf|by apply operator_add_wf|].
    intros j Hj.
    rewrite operator_sub_index, operator_add_index by done.
    rewrite operator_neg_index, mul_neg_one by done. ring.
  - apply (wf_eq size);
      [by apply operator_sub_wf, operator_add_wf|done|].
    intros j Hj.
    rewrite operator_sub_index by (done || by apply operator_add_wf).
    rewrite operator_add_index by done. ring.
  - apply (wf_eq size); [by apply operator_sub_wf|apply default_wf|].
    intros j Hj. rewrite operator_sub_index, default_index by done. ring.
  - apply (wf_eq size); [by apply operator_neg_wf, operator_neg_wf|done|].
    intros j Hj.
    rewrite operator_neg_index by (done || by apply operator_neg_wf).
    rewrite operator_neg_index, !mul_neg_one by done. ring.
Qed.

(** X9: under exact element arithmetic and for well-formed [a], [b],
    [c], the element-wise product commutes, is associative, distributes
    over [+], has the vector of ones as its unit and the zero vector as
    its zero. *)
Theorem elementwise_product_laws a b c :
  wf a → wf b → wf c →
  vector_base.operator_mul size a b = vector_base.operator_mul size b a ∧
  vector_base.operator_mul size (vector_base.operator_mul size a b) c
  = vector_base.operator_mul size a (vector_base.operator_mul size b c) ∧
  vector_base.operator_mul size a (vector_base.operator_add size b c)
  = vector_base.operator_add size
      (vector_base.operator_mul size a b)
      (vector_base.operator_mul size a c) ∧
  vector_base.operator_mul size a (vector_base.from_val size one) = a ∧
  vector_base.operator_mul size a (vector_base.default size)
  = vector_base.default size.
Proof.
  intros Ha Hb Hc. repeat split.
  - apply (wf_eq size); [by apply operator_mul_wf..|].
    intros j Hj. rewrite !operator_mul_index by done. ring.
  - apply (wf_eq size); [by repeat apply operator_mul_wf..|].
    intros j Hj.
    rewrite !operator_mul_index by (done || by apply operator_mul_wf).
    ring.
  - apply (wf_eq size);
      [by apply operator_mul_wf|by apply operator_add_wf, operator_mul_wf|].
    intros j Hj.
    rewrite operator_add_index by (done || by apply operator_mul_wf).
    rewrite !operator_mul_index, operator_add_index by done. ring.
  - apply (wf_eq size); [by apply operator_mul_wf|done|].
    intros j Hj. rewrite operator_mul_index, from_val_index by done. ring.
  - apply (wf_eq size); [by apply operator_mul_wf|apply default_wf|].
    intros j Hj. rewrite operator_mul_index, default_index by done. ring.
Qed.



End any_size.
End more_exact.

Section more_cross.
Context {T : Type} `{NumType T}.
Hypothesis exact : exact_arithmetic T.
Implicit Types (a b c : list T) (s : T).

Add Ring more_cross_ring :
  (exact : ring_theory (zero : T) one add mul sub negate eq).

Lemma length_sqr3 (x y z : T) :
  vector_base.length_sqr 3 [x; y; z]
  = add (add (add zero (mul x x)) (mul y y)) (mul z z).
Proof. reflexivity. Qed.



Lemma cross3 (x y z x' y' z' : T) :
  vector3.cross [x; y; z] [x'; y'; z']
  = [sub (mul y z') (mul z y'); sub (mul z x') (mul x z');
     sub (mul x y') (mul y x')].
Proof. reflexivity. Qed.

(** The goals left once the vectors are three components each. *)
Ltac components a Ha :=
  rewrite (wf3_inv a Ha), from_xyz_list;
  generalize (vector3.x_val a) (vector3.y_val a) (vector3.z_val a);
  clear Ha; intros ? ? ?.



(** X12: under exact element arithmetic and for well-formed
    3-component vectors, [a.cross(b).length_sqr()] is
    [a.length_sqr() * b.length_sqr() - a.dot(b) * a.dot(b)], and
    [a.dot(b.cross(c))] is [a.cross(b).dot(c)]. *)
Theorem cross_length_sqr_triple a b c :
  vector_base.wf 3 a → vector_base.wf 3 b → vector_base.wf 3 c →
  vector_base.length_sqr 3 (vector3.cross a b)
  = sub (mul (vector_base.length_sqr 3 a) (vector_base.length_sqr 3 b))
        (mul (vector_base.dot 3 a b) (vector_base.dot 3 a b)) ∧
  vector_base.dot 3 a (vector3.cross b c)
  = vector_base.dot 3 (vector3.cross a b) c.
Proof.
  intros Ha Hb Hc.
  components a Ha. components b Hb. components c Hc.
  rewrite !cross3, !length_sqr3, !dot3.
  split; ring.
Qed.
End more_cross.

(** ** Exact integer elements: [length] and [normalize] *)

Section more_int.
#[local] Existing Instance NumType_int.
Implicit Types (a : list Z).





End more_int.

(** ** Stream insertion and the named components *)

Lemma string_concat_snoc (sep : string) (l : list string) (x : string) :
  l ≠ [] →
  String.concat sep (l ++ [x]) = String.concat sep l +:+ (sep +:+ x).
Proof.
  induction l as [|y [|y' l] IH]; intros Hl; [done|done|].
  change (y +:+ (sep +:+ String.concat sep ((y' :: l) ++ [x]))
          = (y +:+ (sep +:+ String.concat sep (y' :: l))) +:+ (sep +:+ x)).
  rewrite IH by done. by rewrite !string_app_assoc.
Qed.

Section stream.
Context {T : Type} `{NumType T}.
Variable size : nat.
Variable show : T → string.
Implicit Types (v data : list T) (os name out : string).

#[local] Abbreviation wf := (vector_base.wf size).

Lemma operator_shl_loop n v os :
  n ≤ length v →
  for_loop n
    (λ i os,
       let os := if 0 <? i then os +:+ " " else os in
       os +:+ show (v !!! i))
    os
  = os +:+ String.concat " " (show <$> take n v).
Proof.
  induction n as [|n IH]; intros Hn.
  - by rewrite take_0, for_loop_0, string_app_empty_r.
  - rewrite for_loop_S, IH by lia.
    rewrite (take_S_r v n (v !!! n))
      by (apply list_lookup_lookup_total_lt; lia).
    rewrite fmap_app.
    change (show <$> [v !!! n]) with [show (v !!! n)].
    destruct n as [|n].
    + rewrite take_0. simpl. by rewrite string_app_empty_r.
    + rewrite string_concat_snoc.
      * simpl. by rewrite !string_app_assoc.
      * intros Hnil. apply (f_equal length) in Hnil.
        rewrite length_fmap, length_take_le in Hnil by lia. done.
Qed.

Lemma elements_text_concat data :
  data ≠ [] →
  elements_text data = String.concat " " (conversion <$> data) +:+ " ".
Proof.
  induction data as [|x [|y data] IH]; intros Hd; [done| |].
  - change ((conversion x +:+ " ") +:+ EmptyString = conversion x +:+ " ").
    by rewrite string_app_empty_r.
  - change ((conversion x +:+ " ") +:+ elements_text (y :: data)
            = (conversion x
               +:+ (" " +:+ String.concat " " (conversion <$> y :: data)))
              +:+ " ").
    rewrite IH by done. by rewrite !string_app_assoc.
Qed.

(** X15: for a well-formed [v], [os << v] appends the elements, each as
    the stream shows it, with one space between two neighbours: no
    space before the first or after the last, and no newline. *)
Theorem stream_output v os :
  wf v →
  vector_base.operator_shl size show os v
  = os +:+ String.concat " " (show <$> v).
Proof.
  unfold vector_base.wf, vector_base.operator_shl. intros Hv.
  rewrite operator_shl_loop by lia. by rewrite <- Hv, firstn_all.
Qed.
End stream.

Section print_stream.
Context {T : Type} `{NumType T}.
Variable size : nat.
Implicit Types (data : list T) (name out : string).

(** X16: for a well-formed object of at least one element, [print]
    writes the name and [": "], then what the stream insertion writes
    when it shows an element by the conversion of [print_num], then one
    more space and a newline. *)
Theorem print_stream data name out :
  vector_base.wf size data → 0 < size →
  vector_base.print size data name out
  = vector_base.operator_shl size conversion
      (out +:+ name +:+ ": ") data +:+ " " +:+ newline.
Proof.
  intros Hd Hsize. rewrite print_text by done.
  unfold vector_base.operator_shl, vector_base.wf in *.
  rewrite (operator_shl_loop conversion) by lia.
  rewrite <- Hd, firstn_all.
  rewrite elements_text_concat by (intros ->; simpl in Hd; lia).
  by rewrite !string_app_assoc.
Qed.
End print_stream.

Section components.
Context {T : Type} `{NumType T}.
Implicit Types (a : list T) (e : T).

(** X17: on a well-formed [vector3], an assignment through [x_val()],
    [y_val()] or [z_val()] is read back by the same accessor, leaves the
    other two components and the size as they were, and the object is
    the one constructed from its three components. *)
Theorem component_access a e :
  vector_base.wf 3 a →
  (vector3.x_val (vector3.set_x_val a e) = e ∧
   vector3.y_val (vector3.set_x_val a e) = vector3.y_val a ∧
   vector3.z_val (vector3.set_x_val a e) = vector3.z_val a ∧
   vector_base.wf 3 (vector3.set_x_val a e)) ∧
  (vector3.x_val (vector3.set_y_val a e) = vector3.x_val a ∧
   vector3.y_val (vector3.set_y_val a e) = e ∧
   vector3.z_val (vector3.set_y_val a e) = vector3.z_val a ∧
   vector_base.wf 3 (vector3.set_y_val a e)) ∧
  (vector3.x_val (vector3.set_z_val a e) = vector3.x_val a ∧
   vector3.y_val (vector3.set_z_val a e) = vector3.y_val a ∧
   vector3.z_val (vector3.set_z_val a e) = e ∧
   vector_base.wf 3 (vector3.set_z_val a e)) ∧
  vector3.from_xyz (vector3.x_val a) (vector3.y_val a) (vector3.z_val a) = a.
Proof.
  intros Ha. split; [|split; [|split]]; [..|symmetry; by apply wf3_inv];
    rewrite (wf3_inv a Ha), from_xyz_list; repeat split.
Qed.
End components.

(** ** Instances of the further properties *)

Lemma int_ne_zero_iff (x : Z) : @ne Z NumType_int x 0%Z = false ↔ x = 0%Z.
Proof.
  simpl. rewrite negb_false_iff. apply Z.eqb_eq.
Qed.

Section more_int_instances.
#[local] Existing Instance NumType_int.

Lemma from_arr_take_int :
  vector_base.from_arr 3 [7; 8; 9; 10]%Z = [7; 8; 9]%Z.
Proof.
  apply (proj1 (from_arr_take (H := NumType_int) 3 [7; 8; 9; 10]%Z
                  ltac:(simpl; lia))).
Defined.



Lemma zero_ones_reset_int :
  vector_base.set_zero 3 [1; 2; 3]%Z = vector_base.default 3 ∧
  vector_base.set_ones 3 [1; 2; 3]%Z = vector_base.from_val 3 1%Z ∧
  vector_base.is_zero 3 (vector_base.set_zero 3 [1; 2; 3]%Z) = true.
Proof.
  apply (zero_ones_reset (H := NumType_int) 3 [1; 2; 3]%Z eq_refl eq_refl).
Defined.

Lemma is_zero_default_iff_int :
  vector_base.is_zero 3 [0; 0; 1]%Z = true
  ↔ [0; 0; 1]%Z = vector_base.default 3.
Proof.
  apply (is_zero_default_iff (H := NumType_int) 3 [0; 0; 1]%Z
           int_ne_zero_iff eq_refl).
Defined.

Lemma subtraction_laws_int :
  vector_base.operator_sub 3 [5; 7; 9]%Z [1; 2; 3]%Z
  = vector_base.operator_add 3 [5; 7; 9]%Z
      (vector_base.operator_neg 3 [1; 2; 3]%Z) ∧
  vector_base.operator_sub 3
    (vector_base.operator_add 3 [5; 7; 9]%Z [1; 2; 3]%Z) [1; 2; 3]%Z
  = [5; 7; 9]%Z.
Proof.
  pose proof (subtraction_laws (H := NumType_int) int_exact_arithmetic 3
                [5; 7; 9]%Z [1; 2; 3]%Z eq_refl eq_refl) as (Hs & Hc & _).
  split; [apply Hs | apply Hc].
Defined.

Lemma elementwise_product_laws_int :
  vector_base.operator_mul 3 [1; 2; 3]%Z
    (vector_base.operator_add 3 [4; 5; 6]%Z [7; 8; 9]%Z)
  = vector_base.operator_add 3
      (vector_base.operator_mul 3 [1; 2; 3]%Z [4; 5; 6]%Z)
      (vector_base.operator_mul 3 [1; 2; 3]%Z [7; 8; 9]%Z) ∧
  vector_base.operator_mul 3 [1; 2; 3]%Z (vector_base.from_val 3 1%Z)
  = [1; 2; 3]%Z.
Proof.
  pose proof (elementwise_product_laws (H := NumType_int)
                int_exact_arithmetic 3 [1; 2; 3]%Z [4; 5; 6]%Z [7; 8; 9]%Z
                eq_refl eq_refl eq_refl) as (_ & _ & Hd & Hu & _).
  split; [apply Hd | apply Hu].
Defined.



Lemma cross_length_sqr_triple_int :
  vector_base.length_sqr 3 (vector3.cross [1; 2; 3]%Z [4; 5; 6]%Z)
  = (vector_base.length_sqr 3 [1; 2; 3] * vector_base.length_sqr 3 [4; 5; 6]
     - vector_base.dot 3 [1; 2; 3] [4; 5; 6]
       * vector_base.dot 3 [1; 2; 3] [4; 5; 6])%Z ∧
  vector_base.dot 3 [1; 2; 3]%Z (vector3.cross [4; 5; 6]%Z [7; 8; 10]%Z)
  = vector_base.dot 3 (vector3.cross [1; 2; 3]%Z [4; 5; 6]%Z) [7; 8; 10]%Z.
Proof.
  apply (cross_length_sqr_triple (H := NumType_int) int_exact_arithmetic
           [1; 2; 3]%Z [4; 5; 6]%Z [7; 8; 10]%Z eq_refl eq_refl eq_refl).
Defined.




Lemma stream_output_int :
  vector_base.operator_shl 3 pretty "[" [1; -2; 3]%Z = "[1 -2 3".
Proof.
  rewrite (stream_output (H := NumType_int) 3 pretty [1; -2; 3]%Z "["
             eq_refl).
  reflexivity.
Defined.

Lemma print_stream_int :
  vector_base.print 3 [1; 2; 3]%Z "v" EmptyString
  = vector_base.operator_shl 3 conversion "v: " [1; 2; 3]%Z
    +:+ " " +:+ newline.
Proof.
  apply (print_stream (H := NumType_int) 3 [1; 2; 3]%Z "v" EmptyString
           eq_refl).
  lia.
Defined.

Lemma component_access_int :
  vector3.y_val (vector3.set_y_val [1; 2; 3]%Z 9%Z) = 9%Z ∧
  vector3.x_val (vector3.set_y_val [1; 2; 3]%Z 9%Z) = 1%Z ∧
  vector3.z_val (vector3.set_y_val [1; 2; 3]%Z 9%Z) = 3%Z.
Proof.
  pose proof (component_access (H := NumType_int) [1; 2; 3]%Z 9%Z eq_refl)
    as (_ & (Hx & Hy & Hz & _) & _).
  split; [apply Hy|]. split; [apply Hx | apply Hz].
Defined.
End more_int_instances.
